(** * The function-call notebook and the docs workflow

    A shallow embedding of [notebook/agentchat_function_call.ipynb] (the
    code cells of the notebook) and of the [docs] workflow that follows
    it, with the properties claimed about them.

    Layout: the models come first ([Py], [Notebook], [Workflow]), the
    lemmas and theorems after them ([PyFacts], [NotebookSpec],
    [WorkflowSpec]). *)

From Stdlib Require Import NArith ZArith String Ascii.
From stdpp Require Import base option list gmap strings.

Set Warnings "-register-all".

(** ** Python values *)

Module Py.

(** A Python [str] is a sequence of Unicode code points. *)
Definition pystr : Type := list N.

(** A literal of the source, character by character. *)
Definition lit (s : string) : pystr :=
  map N_of_ascii (list_ascii_of_string s).

(** The escape [\n]. *)
Definition NL : pystr := [10%N].

(** The code points [str.isspace] accepts; [str.rstrip()] without an
    argument removes exactly these. *)
Definition is_space (c : N) : bool :=
  ((9 <=? c) && (c <=? 13) || (28 <=? c) && (c <=? 32)
   || (c =? 133) || (c =? 160) || (c =? 5760)
   || (8192 <=? c) && (c <=? 8202)
   || (c =? 8232) || (c =? 8233) || (c =? 8239) || (c =? 8287)
   || (c =? 12288))%N.

(** [s.rstrip()]: a character is dropped when it is white space and
    everything to its right has been dropped already. *)
Definition rstrip (s : pystr) : pystr :=
  foldr (fun c acc =>
           match acc with
           | [] => if is_space c then [] else [c]
           | _ :: _ => c :: acc
           end) [] s.

Fixpoint startswith (s p : pystr) {struct p} : bool :=
  match p, s with
  | [], _ => true
  | _ :: _, [] => false
  | c :: p', d :: s' => (c =? d)%N && startswith s' p'
  end.

(** [s.endswith(t)] *)
Definition endswith (s t : pystr) : bool :=
  startswith (reverse s) (reverse t).

(** The values a message dictionary holds (the JSON-shaped part of
    Python's values). *)
Inductive pyval : Type :=
| PyNone
| PyBool (b : bool)
| PyInt (n : Z)
| PyStr (s : pystr)
| PyList (l : list pyval)
| PyDict (d : list (pystr * pyval)).

(** Truth value testing: [None], [False], zero and empty containers are
    false. *)
Definition truthy (v : pyval) : bool :=
  match v with
  | PyNone => false
  | PyBool b => b
  | PyInt n => negb (n =? 0)%Z
  | PyStr s => negb (bool_decide (s = []))
  | PyList l => match l with [] => false | _ :: _ => true end
  | PyDict d => match d with [] => false | _ :: _ => true end
  end.

Inductive exception : Type :=
| AttributeError
| TypeError.

(** The outcome of evaluating an expression: a value or a raised
    exception. *)
Inductive outcome (A : Type) : Type :=
| Ok (a : A)
| Raise (e : exception).
Arguments Ok {A} a.
Arguments Raise {A} e.

#[global] Instance outcome_ret : MRet outcome := fun _ a => Ok a.
#[global] Instance outcome_bind : MBind outcome := fun _ _ k r =>
  match r with
  | Ok a => k a
  | Raise e => Raise e
  end.

(** A message is a dictionary with string keys. *)
Abbreviation dict := (gmap pystr pyval).

(** [x.get(k, d)] *)
Definition dict_get (x : dict) (k : pystr) (d : pyval) : pyval :=
  default d (x !! k).

(** [v.rstrip()]: only strings have the method. *)
Definition call_rstrip (v : pyval) : outcome pyval :=
  match v with
  | PyStr s => Ok (PyStr (rstrip s))
  | _ => Raise AttributeError
  end.

(** [v.endswith(t)] *)
Definition call_endswith (v t : pyval) : outcome pyval :=
  match v, t with
  | PyStr s, PyStr t' => Ok (PyBool (endswith s t'))
  | PyStr _, _ => Raise TypeError
  | _, _ => Raise AttributeError
  end.

(** [a and b]: [b] is evaluated only when [a] is true, and a false [a] is
    the value of the whole expression. *)
Definition py_and (a : pyval) (b : unit -> outcome pyval) : outcome pyval :=
  if truthy a then b tt else Ok a.

End Py.

(** ** The notebook *)

Module Notebook.
Import Py.

(** [lambda x: x.get("content", e) and
               x.get("content", e).rstrip().endswith("TERMINATE")],
    where [e] is the empty string literal. *)
Definition is_termination_msg (x : dict) : outcome pyval :=
  py_and (dict_get x (lit "content") (PyStr []))
    (fun _ =>
       r ← call_rstrip (dict_get x (lit "content") (PyStr []));
       call_endswith r (PyStr (lit "TERMINATE"))).

(** *** Loading the model configurations *)

(** Where [config_list_from_json] reads from: the process environment and
    the files of the working directory, by name. *)
Record host : Type := {
  environ : gmap pystr pystr;
  files : gmap pystr pystr
}.

(** One filter of a [filter_dict]: a key and the values accepted for it. *)
Definition accepts (c : dict) (f : pystr * list pystr) : bool :=
  match c !! f.1 with
  | Some (PyStr v) => bool_decide (v ∈ f.2)
  | _ => false
  end.

(** Modelled from the spec: [autogen.filter_config], which is not part of
    the notebook. An entry is kept when, for every key of the filter, its
    value for that key is one of the accepted values. *)
Definition filter_config (config_list : list dict)
    (filter_dict : list (pystr * list pystr)) : list dict :=
  List.filter (fun c => forallb (accepts c) filter_dict) config_list.

(** Modelled from the spec: [autogen.config_list_from_json], which is not
    part of the notebook. The JSON text is the value of the environment
    variable [env_or_file] when it is set and the content of the file of
    that name otherwise; it is parsed as a list of configurations and
    filtered. [None] stands for the exception raised when there is no
    such variable and no such file, or when the text is not a JSON list. *)
Definition config_list_from_json (json_loads : pystr -> option (list dict))
    (h : host) (env_or_file : pystr)
    (filter_dict : list (pystr * list pystr)) : option (list dict) :=
  text ← match environ h !! env_or_file with
         | Some v => Some v
         | None => files h !! env_or_file
         end;
  loaded ← json_loads text;
  Some (filter_config loaded filter_dict).

(** [config_list = autogen.config_list_from_json("OAI_CONFIG_LIST",
      filter_dict={"model": ["gpt-4", "gpt-3.5-turbo", "gpt-3.5-turbo-16k"]})] *)
Definition config_list (json_loads : pystr -> option (list dict))
    (h : host) : option (list dict) :=
  config_list_from_json json_loads h (lit "OAI_CONFIG_LIST")
    [(lit "model", [lit "gpt-4"; lit "gpt-3.5-turbo"; lit "gpt-3.5-turbo-16k"])].

(** *** The execution engines *)

(** [IPython]'s [ExecutionResult]: the value of the cell and the two error
    slots, each of which may be [None]. *)
Record ExecutionResult (object : Type) : Type := {
  result : option object;
  error_before_exec : option object;
  error_in_exec : option object
}.
Arguments result {object} _.
Arguments error_before_exec {object} _.
Arguments error_in_exec {object} _.

(** Modelled from the spec: [UserProxyAgent.execute_code_blocks], which is
    not part of the notebook. It takes the list of (language, code) blocks
    and returns the shell output; running them changes the executor. *)
Definition execute_code_blocks_t (executor : Type) : Type :=
  executor -> list (pystr * pystr) -> pystr * executor.

(** What the notebook calls and does not define: the interactive shell
    behind [get_ipython()], [str] on the objects it hands back, and the
    user proxy's code executor. *)
Record engine : Type := {
  object : Type;
  py_str : object -> pystr;
  shell : Type;
  run_cell : shell -> pystr -> ExecutionResult object * shell;
  executor : Type;
  execute_code_blocks : execute_code_blocks_t executor
}.

(** The calls a function of the notebook makes into the engines. *)
Inductive engine_call : Type :=
| RunCell (cell : pystr)
| ExecuteCodeBlocks (blocks : list (pystr * pystr)).

(** The state the two functions act on; [calls] records the engine calls
    made so far, oldest first. *)
Record world (E : engine) : Type := {
  ipython : shell E;
  proxy : executor E;
  calls : list engine_call
}.
Arguments ipython {E} _.
Arguments proxy {E} _.
Arguments calls {E} _.

(** [str(o)], where [o] may be [None]. *)
Definition str {E : engine} (o : option (object E)) : pystr :=
  match o with
  | None => lit "None"
  | Some v => py_str E v
  end.

(** [def exec_python(cell: Annotated[str, ...]) -> str] *)
Definition exec_python {E : engine} (cell : pystr) (w : world E)
    : pystr * world E :=
  let '(result_, ipython') := run_cell E (ipython w) cell in
  let log := str (result result_) in
  let log := match error_before_exec result_ with
             | Some e => log ++ NL ++ py_str E e
             | None => log
             end in
  let log := match error_in_exec result_ with
             | Some e => log ++ NL ++ py_str E e
             | None => log
             end in
  (log, {| ipython := ipython'; proxy := proxy w;
           calls := calls w ++ [RunCell cell] |}).

(** [def exec_sh(script: Annotated[str, ...]) -> str] *)
Definition exec_sh {E : engine} (script : pystr) (w : world E)
    : pystr * world E :=
  let blocks := [(lit "sh", script)] in
  let '(out, proxy') := execute_code_blocks E (proxy w) blocks in
  (out, {| ipython := ipython w; proxy := proxy';
           calls := calls w ++ [ExecuteCodeBlocks blocks] |}).

(** *** Signatures and registration *)

(** The types an annotation can name. *)
Inductive pytype : Type := Tstr | Tint | Tfloat | Tbool.

(** The declared interface of a function: its parameters, each with its
    type and the text of its [Annotated] description, and its return
    annotation. *)
Record signature : Type := {
  parameters : list (pystr * pytype * pystr);
  returns : pytype
}.

(** The two functions the notebook defines. *)
Inductive callable : Type :=
| Exec_python
| Exec_sh.

#[global] Instance callable_eq_dec : EqDecision callable.
Proof. solve_decision. Defined.

Definition signature_of (f : callable) : signature :=
  match f with
  | Exec_python =>
      {| parameters := [(lit "cell", Tstr, lit "Valid Python cell to execute.")];
         returns := Tstr |}
  | Exec_sh =>
      {| parameters := [(lit "script", Tstr, lit "Valid Python cell to execute.")];
         returns := Tstr |}
  end.

(** Calling a function object. *)
Definition call {E : engine} (f : callable) (arg : pystr) (w : world E)
    : pystr * world E :=
  match f with
  | Exec_python => exec_python arg w
  | Exec_sh => exec_sh arg w
  end.

(** A function object with the [_name] attribute the decorators set. *)
Record function : Type := {
  code : callable;
  _name : option pystr
}.

(** A tool as the assistant advertises it to the model. *)
Record tool : Type := {
  tool_name : pystr;
  tool_description : pystr;
  tool_parameters : list (pystr * pytype * pystr)
}.

(** The dispatch state of the two agents: the tool signatures of
    [chatbot] and the function map of [user_proxy]. *)
Record registry : Type := {
  tools : list tool;
  function_map : gmap pystr callable
}.

Definition no_registrations : registry :=
  {| tools := []; function_map := ∅ |}.

(** The [__name__] of a function object. *)
Definition __name__ (f : callable) : pystr :=
  match f with
  | Exec_python => lit "exec_python"
  | Exec_sh => lit "exec_sh"
  end.

(** The name a decorator settles on: the one given, else the one already
    set on the function, else the function's own. *)
Definition settle_name (name : option pystr) (f : function) : pystr :=
  match name with
  | Some n => n
  | None => default (__name__ (code f)) (_name f)
  end.

(** Modelled from the spec: [ConversableAgent.register_for_llm], which is
    not part of the notebook. The function is advertised under the name
    and description given, with the parameters of its signature; a tool
    of the same name is replaced. *)
Definition register_for_llm (name : option pystr) (description : pystr)
    (f : function) (r : registry) : function * registry :=
  let n := settle_name name f in
  let t := {| tool_name := n; tool_description := description;
              tool_parameters := parameters (signature_of (code f)) |} in
  ({| code := code f; _name := Some n |},
   {| tools := List.filter (fun t' => negb (bool_decide (tool_name t' = n)))
                 (tools r) ++ [t];
      function_map := function_map r |}).

(** Modelled from the spec: [ConversableAgent.register_for_execution],
    which is not part of the notebook. The function becomes the one that
    is called for its name. *)
Definition register_for_execution (name : option pystr)
    (f : function) (r : registry) : function * registry :=
  let n := settle_name name f in
  ({| code := code f; _name := Some n |},
   {| tools := tools r; function_map := <[n := code f]> (function_map r) |}).

(** Modelled from the spec: [autogen.agentchat.register_function], which
    is not part of the notebook: both registrations, under one name. *)
Definition register_function (f : function) (name : pystr)
    (description : pystr) (r : registry) : function * registry :=
  let '(f, r) := register_for_llm (Some name) description f r in
  register_for_execution (Some name) f r.

(** The registrations of the notebook, in the order it makes them. The
    decorators of [exec_python] apply from the bottom up; [exec_sh] is
    defined in between and used in none of them. *)
Definition registrations : registry :=
  let exec_python := {| code := Exec_python; _name := None |} in
  let '(exec_python, r) :=
    register_for_llm (Some (lit "python"))
      (lit "run cell in ipython and return the execution result.")
      exec_python no_registrations in
  let '(exec_python, r) := register_for_execution None exec_python r in
  let '(_, r) :=
    register_function exec_python (lit "sh")
      (lit "run a shell script and return the execution result.") r in
  r.

(** Modelled from the spec: the dispatch of a function call the model
    asks for, by name, to the function registered for it; [None] when no
    function has the name. *)
Definition execute_function {E : engine} (r : registry) (name arg : pystr)
    (w : world E) : option (pystr * world E) :=
  f ← function_map r !! name;
  Some (call f arg w).

(** *** The two agents and their exchange *)

Module Agent.

Inductive human_input_mode_t : Type := ALWAYS | TERMINATE | NEVER.

(** The keyword arguments [user_proxy] is built with. *)
Record t : Type := {
  name : pystr;
  is_termination_msg : dict -> outcome pyval;
  human_input_mode : human_input_mode_t;
  max_consecutive_auto_reply : nat;
  work_dir : pystr;
  use_docker : bool
}.

End Agent.

(** [user_proxy = autogen.UserProxyAgent(name="user_proxy", ...)] *)
Definition user_proxy : Agent.t :=
  {| Agent.name := lit "user_proxy";
     Agent.is_termination_msg := is_termination_msg;
     Agent.human_input_mode := Agent.NEVER;
     Agent.max_consecutive_auto_reply := 10;
     Agent.work_dir := lit "coding";
     Agent.use_docker := false |}.

(** The state of [user_proxy] in a chat: the counter of its consecutive
    automatic replies, the replies themselves (oldest first) and the
    engines. *)
Record chat (E : engine) : Type := {
  consecutive_auto_reply_counter : nat;
  auto_replies : list dict;
  engines : world E
}.
Arguments consecutive_auto_reply_counter {E} _.
Arguments auto_replies {E} _.
Arguments engines {E} _.

(** Why [user_proxy] stops answering. *)
Inductive stop : Type :=
| MaxConsecutiveAutoReply
| TerminationMsg
| Raised (e : exception)
| NoMessage.

Section Exchange.
Context {E : engine}.

(** The assistant: its next message given the messages sent to it so far
    (oldest first), or [None] when it sends none. The model behind it is
    not deterministic; a run fixes one such function. *)
Variable assistant : list dict -> option dict.

(** What [user_proxy] answers to a message when it answers automatically:
    the outcome of the function call or of the code in it. *)
Variable generate_reply : dict -> world E -> dict * world E.

(** Modelled from the spec: the reply step of the agent framework, which
    is not part of the notebook, for an agent that never asks for human
    input. No reply is made once the counter has reached the agent's cap
    or when the message received is a termination message; otherwise the
    counter goes up by one and the automatic reply is sent. *)
Definition receive (a : Agent.t) (c : chat E) (message : dict)
    : chat E * (stop + dict) :=
  if bool_decide (Agent.max_consecutive_auto_reply a ≤ consecutive_auto_reply_counter c)
  then (c, inl MaxConsecutiveAutoReply)
  else match Agent.is_termination_msg a message with
       | Raise e => (c, inl (Raised e))
       | Ok v =>
           if truthy v then (c, inl TerminationMsg)
           else
             let '(reply, w) := generate_reply message (engines c) in
             ({| consecutive_auto_reply_counter := S (consecutive_auto_reply_counter c);
                 auto_replies := auto_replies c ++ [reply];
                 engines := w |}, inr reply)
       end.

(** Modelled from the spec: the alternation of the two agents. [sent] are
    the messages the assistant has received; [fuel] bounds the rounds, and
    the result is [None] when it runs out. *)
Fixpoint exchange (fuel : nat) (a : Agent.t) (c : chat E) (sent : list dict)
    : option (chat E * stop) :=
  match fuel with
  | 0 => None
  | S fuel' =>
      match assistant sent with
      | None => Some (c, NoMessage)
      | Some message =>
          match receive a c message with
          | (c', inl why) => Some (c', why)
          | (c', inr reply) => exchange fuel' a c' (sent ++ [reply])
          end
      end
  end.

(** Modelled from the spec: [user_proxy.initiate_chat(chatbot,
    message=...)], which starts from a counter of zero and sends the
    opening message. *)
Definition initiate_chat (fuel : nat) (a : Agent.t) (message : dict)
    (w : world E) : option (chat E * stop) :=
  exchange fuel a
    {| consecutive_auto_reply_counter := 0; auto_replies := []; engines := w |}
    [message].

End Exchange.

(** *** Auxiliary definitions for the statements *)

(** The line [exec_python] adds for an error slot that is not [None]. *)
Definition error_line {E : engine} (e : option (object E)) : pystr :=
  match e with
  | Some e => NL ++ py_str E e
  | None => []
  end.

(** The invariant of a chat: the counter counts the automatic replies and
    is within the agent's cap. *)
Definition within_cap {E : engine} (a : Agent.t) (c : chat E) : Prop :=
  length (auto_replies c) = consecutive_auto_reply_counter c /\
  consecutive_auto_reply_counter c <= Agent.max_consecutive_auto_reply a.

(** An assistant that never says TERMINATE, and a user proxy that answers
    with the message it got. *)
Definition tireless (sent : list dict) : option dict :=
  Some {[ lit "content" := PyStr (lit "go on") ]}.

Definition echo {E : engine} (message : dict) (w : world E)
    : dict * world E :=
  (message, w).

(** A host with the configurations in the environment, and a parser that
    knows this one text. *)
Definition toy_configs : list dict := [
  {[ lit "model" := PyStr (lit "gpt-4") ]};
  {[ lit "model" := PyStr (lit "gpt-4-32k") ]};
  {[ lit "api_key" := PyStr (lit "k") ]};
  {[ lit "model" := PyStr (lit "gpt-3.5-turbo-16k") ]} ].

Definition toy_host : host :=
  {| environ := {[ lit "OAI_CONFIG_LIST" := lit "[...]" ]}; files := ∅ |}.

Definition toy_json_loads (text : pystr) : option (list dict) :=
  if bool_decide (text = lit "[...]") then Some toy_configs else None.

(** The model names of the filter. *)
Definition allowed_models : list pystr :=
  [lit "gpt-4"; lit "gpt-3.5-turbo"; lit "gpt-3.5-turbo-16k"].

(** An engine for examples: objects are their own strings, a cell that is
    [1/0] raises in execution and any other cell has no value, and the
    code executor echoes the code of its first block. *)
Definition toy : engine :=
  {| object := pystr;
     py_str := fun o => o;
     shell := unit;
     run_cell := fun sh cell =>
       ({| result := None; error_before_exec := None;
           error_in_exec := if bool_decide (cell = lit "1/0")
                            then Some (lit "division by zero") else None |},
        sh);
     executor := unit;
     execute_code_blocks := fun ex blocks =>
       (match blocks with (_, code_) :: _ => code_ | [] => [] end, ex) |}.

Definition toy_world : world toy :=
  Build_world toy tt tt [].

(** *** Sequences of calls *)

(** Calls of the two functions made one after the other on the same
    engines; the result lists each call with what it returned. *)
Fixpoint call_all {E : engine} (cs : list (callable * pystr)) (w : world E)
    : list (callable * pystr * pystr) * world E :=
  match cs with
  | [] => ([], w)
  | (f, arg) :: cs' =>
      let '(out, w') := call f arg w in
      let '(rest, w'') := call_all cs' w' in
      ((f, arg, out) :: rest, w'')
  end.




(** An engine whose shell counts the cells it has run and answers with
    the cell, and whose code executor counts its runs likewise. *)
Definition counting : engine :=
  {| object := pystr;
     py_str := fun o => o;
     shell := nat;
     run_cell := fun n cell =>
       ({| result := Some cell; error_before_exec := None;
           error_in_exec := None |}, S n);
     executor := nat;
     execute_code_blocks := fun n blocks =>
       (match blocks with (_, code_) :: _ => code_ | [] => [] end, S n) |}.

End Notebook.

(** ** The docs workflow *)

Module Workflow.
#[local] Open Scope string_scope.

(** *** Syntax *)

(** One key of [on:], with the keys written under it. *)
Record trigger : Type := {
  event : string;
  settings : list (string * list string)
}.

(** An operand of an [if:] expression: a context value or a literal. *)
Inductive operand : Type :=
| Context (path : string)
| Literal (text : string).

(** An [if:] expression. *)
Inductive condition : Type :=
| Ne (a b : operand)
| Eq (a b : operand).

(** A command of a [run:] script: one line, or an [if] with its [elif]
    and [else] branches, whose bodies are lines. *)
Inductive shell_cmd : Type :=
| Simple (line : string)
| IfElse (test : string) (body : list string)
    (elifs : list (string * list string)) (otherwise : list string).

(** A step is an action ([uses:]) or a script ([run:]). *)
Record step : Type := {
  step_name : option string;
  uses : option string;
  with_ : list (string * string);
  working_directory : option string;
  run : list shell_cmd
}.

Record job : Type := {
  job_id : string;
  job_if : option condition;
  runs_on : string;
  defaults_run_working_directory : string;
  steps : list step
}.

Record workflow : Type := {
  name : string;
  on : list trigger;
  permissions : list (string * string);
  jobs : list job
}.

(** The lines of a script, as they stand in the file. *)
Definition render_elif (b : string * list string) : list string :=
  ("elif " +:+ b.1 +:+ "; then") :: b.2.

Definition render (c : shell_cmd) : list string :=
  match c with
  | Simple line => [line]
  | IfElse test body elifs otherwise =>
      ("if " +:+ test +:+ "; then") :: body
        ++ mjoin (render_elif <$> elifs)
        ++ "else" :: otherwise ++ ["fi"]
  end.

Definition script_text (cs : list shell_cmd) : list string :=
  mjoin (render <$> cs).

(** *** The file *)

Definition action (name : option string) (uses_ : string)
    (with__ : list (string * string)) : step :=
  {| step_name := name; uses := Some uses_; with_ := with__;
     working_directory := None; run := [] |}.

Definition script (name : string) (dir : option string)
    (cs : list shell_cmd) : step :=
  {| step_name := Some name; uses := None; with_ := [];
     working_directory := dir; run := cs |}.

(** The double quote character. *)
Definition dquote : string := String (ascii_of_nat 34) EmptyString.

(** The seven steps the two jobs have in common, word for word. *)
Definition setup_steps : list step := [
  action None "actions/checkout@v3" [];
  action None "actions/setup-node@v4" [("node-version", "18.x")];
  action (Some "setup python") "actions/setup-python@v4"
    [("python-version", "3.8")];
  script "pydoc-markdown install" None [
    Simple "python -m pip install --upgrade pip";
    Simple "pip install pydoc-markdown" ];
  script "pydoc-markdown run" None [
    Simple "pydoc-markdown" ];
  script "quarto install" (Some "${{ runner.temp }}") [
    Simple "wget -q https://github.com/quarto-dev/quarto-cli/releases/download/v1.4.549/quarto-1.4.549-linux-amd64.tar.gz";
    Simple "tar -xzf quarto-1.4.549-linux-amd64.tar.gz";
    Simple ("echo " +:+ dquote +:+ "$(pwd)/quarto-1.4.549/bin/" +:+ dquote
            +:+ " >> $GITHUB_PATH") ];
  script "quarto run" None [
    Simple "quarto render ." ]
].

(** The script of [Test Build] and of [Build website]. *)
Definition build_script : list shell_cmd := [
  IfElse "[ -e yarn.lock ]"
    [ "yarn install --frozen-lockfile --ignore-engines";
      "yarn build" ]
    [ ("[ -e package-lock.json ]",
       [ "npm ci";
         "npm run build" ]) ]
    [ "npm i --legacy-peer-deps";
      "npm run build" ]
].

Definition checks : job :=
  {| job_id := "checks";
     job_if := Some (Ne (Context "github.event_name") (Literal "push"));
     runs_on := "ubuntu-latest";
     defaults_run_working_directory := "website";
     steps := setup_steps ++ [ script "Test Build" None build_script ] |}.

Definition gh_release : job :=
  {| job_id := "gh-release";
     job_if := Some (Ne (Context "github.event_name") (Literal "pull_request"));
     runs_on := "ubuntu-latest";
     defaults_run_working_directory := "website";
     steps := setup_steps ++ [
       script "Build website" None build_script;
       action (Some "Deploy to GitHub Pages") "peaceiris/actions-gh-pages@v3"
         [("github_token", "${{ secrets.GITHUB_TOKEN }}");
          ("publish_dir", "./website/build")] ] |}.

Definition watched : list string :=
  ["autogen/*"; "website/*"; ".github/workflows/deploy-website.yml"].

Definition docs : workflow :=
  {| name := "docs";
     on := [
       {| event := "pull_request";
          settings := [("branches", ["main"]); ("path", watched)] |};
       {| event := "push";
          settings := [("branches", ["main"]); ("path", watched)] |};
       {| event := "workflow_dispatch"; settings := [] |};
       {| event := "merge_group";
          settings := [("types", ["checks_requested"])] |} ];
     permissions := [("contents", "write")];
     jobs := [checks; gh_release] |}.

(** *** Conditions *)

(** [sub] occurs in [s]. *)
Fixpoint contains (sub s : string) : bool :=
  String.prefix sub s ||
  match s with
  | EmptyString => false
  | String _ s' => contains sub s'
  end.

(** A conditional construct of the file: the [if:] of a job, or an [if]
    or [elif] of a script, with the job and the name of the step it is in. *)
Inductive conditional : Type :=
| JobIf (job_ : string) (c : condition)
| ShellIf (job_ : string) (step_ : option string) (test : string).

Definition shell_tests (c : shell_cmd) : list string :=
  match c with
  | Simple _ => []
  | IfElse test _ elifs _ => test :: (fst <$> elifs)
  end.

Definition step_conditionals (j : job) (s : step) : list conditional :=
  ShellIf (job_id j) (step_name s) <$> mjoin (shell_tests <$> run s).

Definition job_conditionals (j : job) : list conditional :=
  match job_if j with
  | Some c => [JobIf (job_id j) c]
  | None => []
  end ++ mjoin (step_conditionals j <$> steps j).

Definition conditionals (w : workflow) : list conditional :=
  mjoin (job_conditionals <$> jobs w).

Definition is_event_name (o : operand) : bool :=
  match o with
  | Context path => bool_decide (path = "github.event_name")
  | Literal _ => false
  end.

Definition is_literal (o : operand) : bool :=
  match o with
  | Context _ => false
  | Literal _ => true
  end.

(** The condition compares the name of the triggering event with a
    literal. In a script the event is visible as [$GITHUB_EVENT_NAME] or
    through an expression on [github.event_name]. *)
Definition tests_event_name (c : conditional) : bool :=
  match c with
  | JobIf _ (Ne a b) | JobIf _ (Eq a b) =>
      is_event_name a && is_literal b || is_literal a && is_event_name b
  | ShellIf _ _ test =>
      contains "GITHUB_EVENT_NAME" test || contains "github.event_name" test
  end.

(** *** Triggers *)

Definition eval_operand (event_name : string) (o : operand) : string :=
  match o with
  | Context path =>
      if bool_decide (path = "github.event_name") then event_name else EmptyString
  | Literal text => text
  end.

Definition eval (event_name : string) (c : condition) : bool :=
  match c with
  | Ne a b =>
      negb (bool_decide (eval_operand event_name a = eval_operand event_name b))
  | Eq a b =>
      bool_decide (eval_operand event_name a = eval_operand event_name b)
  end.

(** The jobs an event starts: those whose [if:] holds for it. *)
Definition triggered (w : workflow) (event_name : string) : list job :=
  List.filter
    (fun j => match job_if j with Some c => eval event_name c | None => true end)
    (jobs w).




(** *** Running a job *)

Inductive conclusion : Type := Success | Failure | Skipped.

(** One command run on the runner: its line, its exit status, and whether
    it ran as the test of an [if] or [elif]. *)
Record invocation : Type := {
  line_of : string;
  status : Z;
  as_test : bool
}.

Section Runner.

(** The runner machine, and what running a command line or an action on
    it does: an exit status and the machine afterwards. *)
Variable machine : Type.
Variable exec : string -> machine -> Z * machine.

(** The lines of a body under [bash -e]: the first line that exits
    non-zero ends the script with that status. *)
Fixpoint run_lines (ls : list string) (m : machine)
    : Z * machine * list invocation :=
  match ls with
  | [] => (0%Z, m, [])
  | l :: ls' =>
      let '(rc, m') := exec l m in
      let here := {| line_of := l; status := rc; as_test := false |} in
      if (rc =? 0)%Z then
        let '(rc', m'', log) := run_lines ls' m' in (rc', m'', here :: log)
      else (rc, m', [here])
  end.

(** The [elif] chain: the body of the first test that exits zero, and the
    [else] body when none does. The status of a test only selects the
    branch: [-e] does not apply to it. *)
Fixpoint run_elifs (elifs : list (string * list string))
    (otherwise : list string) (m : machine) : Z * machine * list invocation :=
  match elifs with
  | [] => run_lines otherwise m
  | (test, body) :: elifs' =>
      let '(rc, m') := exec test m in
      let here := {| line_of := test; status := rc; as_test := true |} in
      let '(rc', m'', log) :=
        if (rc =? 0)%Z then run_lines body m'
        else run_elifs elifs' otherwise m' in
      (rc', m'', here :: log)
  end.

Definition run_cmd (c : shell_cmd) (m : machine)
    : Z * machine * list invocation :=
  match c with
  | Simple line => run_lines [line] m
  | IfElse test body elifs otherwise =>
      run_elifs ((test, body) :: elifs) otherwise m
  end.

(** A script under [bash -e], the shell of a [run:] step that names none. *)
Fixpoint run_script (cs : list shell_cmd) (m : machine)
    : Z * machine * list invocation :=
  match cs with
  | [] => (0%Z, m, [])
  | c :: cs' =>
      let '(rc, m', log) := run_cmd c m in
      if (rc =? 0)%Z then
        let '(rc', m'', log') := run_script cs' m' in (rc', m'', (log ++ log')%list)
      else (rc, m', log)
  end.

(** A step succeeds when its action, or its script, exits zero. *)
Definition run_step (s : step) (m : machine)
    : conclusion * machine * list invocation :=
  let '(rc, m', log) :=
    match uses s with
    | Some a =>
        let '(rc, m') := exec a m in
        (rc, m', [{| line_of := a; status := rc; as_test := false |}])
    | None => run_script (run s) m
    end in
  (if (rc =? 0)%Z then Success else Failure, m', log).

(** The steps of a job, in order. No step of the file has an [if:] or a
    [continue-on-error:], so a step runs when every step before it
    succeeded ([ok]) and is skipped otherwise. The result gives, for each
    step, its conclusion and the commands it ran. *)
Fixpoint run_steps (ok : bool) (ss : list step) (m : machine)
    : list (conclusion * list invocation) * machine :=
  match ss with
  | [] => ([], m)
  | s :: ss' =>
      if ok then
        let '(c, m', log) := run_step s m in
        let '(rest, m'') :=
          run_steps (match c with Success => true | _ => false end) ss' m' in
        ((c, log) :: rest, m'')
      else
        let '(rest, m') := run_steps false ss' m in
        ((Skipped, []) :: rest, m')
  end.

Definition run_job (j : job) (m : machine)
    : list (conclusion * list invocation) * machine :=
  run_steps true (steps j) m.

End Runner.

(** A command that is not the test of a branch and exits non-zero. *)
Definition failed (i : invocation) : Prop :=
  as_test i = false /\ status i <> 0%Z.

(** A log in which a failed command, if there is one, is the last entry,
    and tells in the result [r] of the run that [bad] holds. *)
Definition halts_at_failure {R : Type} (bad : R -> Prop) (r : R)
    (log : list invocation) : Prop :=
  forall n i, log !! n = Some i -> failed i -> bad r /\ length log = S n.

(** A runner on which [pydoc-markdown] exits 1 and everything else 0. *)
Definition flaky (line : string) (m : unit) : Z * unit :=
  (if String.eqb line "pydoc-markdown" then 1%Z else 0%Z, m).


End Workflow.

(** ** Facts about the Python primitives *)

Module PyFacts.
Import Py.

Lemma startswith_prefix (s p : pystr) :
  startswith s p = true <-> p `prefix_of` s.
Proof.
  revert s. induction p as [|c p IH]; intros s; simpl.
  - split; [intros _; apply prefix_nil | done].
  - destruct s as [|d s].
    + split; [done | intros H; by apply prefix_nil_inv in H].
    + rewrite andb_true_iff, N.eqb_eq, IH. split.
      * intros [-> H]. by apply prefix_cons.
      * intros H. split; [by apply prefix_cons_inv_1 in H | by apply prefix_cons_inv_2 in H].
Qed.

Lemma endswith_suffix (s t : pystr) :
  endswith s t = true <-> t `suffix_of` s.
Proof.
  unfold endswith. rewrite startswith_prefix. symmetry. apply suffix_prefix_reverse.
Qed.

Lemma truthy_str (s : pystr) : truthy (PyStr s) = true <-> s <> [].
Proof.
  simpl. rewrite negb_true_iff, bool_decide_eq_false. done.
Qed.

(** *** Right-stripping *)

Abbreviation spaces := (Forall (fun c => is_space c = true)).

Lemma rstrip_cons (c : N) (s : pystr) :
  rstrip (c :: s) =
    match rstrip s with
    | [] => if is_space c then [] else [c]
    | _ :: _ => c :: rstrip s
    end.
Proof. reflexivity. Qed.

Lemma rstrip_spaces (ws : pystr) : spaces ws -> rstrip ws = [].
Proof.
  induction 1 as [|c ws Hc _ IH]; [done|]. by rewrite rstrip_cons, IH, Hc.
Qed.

Lemma rstrip_app_spaces (s ws : pystr) :
  spaces ws -> rstrip (s ++ ws) = rstrip s.
Proof.
  intros Hws. induction s as [|c s IH]; simpl app.
  - by apply rstrip_spaces.
  - by rewrite !rstrip_cons, IH.
Qed.

Lemma rstrip_ends_nonspace (s : pystr) (c : N) :
  is_space c = false -> rstrip (s ++ [c]) = s ++ [c].
Proof.
  intros Hc. induction s as [|d s IH]; simpl app.
  - by rewrite rstrip_cons, Hc.
  - rewrite rstrip_cons, IH. by destruct s.
Qed.

(** What [rstrip] removes is white space, and only from the end. *)
Lemma rstrip_decompose (s : pystr) :
  exists ws, s = rstrip s ++ ws /\ spaces ws.
Proof.
  induction s as [|c s (ws & Hs & Hws)].
  - by exists [].
  - rewrite rstrip_cons. destruct (rstrip s) as [|d r] eqn:Hr.
    + simpl in Hs. subst ws. destruct (is_space c) eqn:Hc.
      * exists (c :: s). split; [done|]. by constructor.
      * by exists s.
    + exists ws. split; [|done]. simpl. f_equal. exact Hs.
Qed.

Lemma rstrip_keyword (p ws : pystr) :
  spaces ws ->
  rstrip (p ++ lit "TERMINATE" ++ ws) = p ++ lit "TERMINATE".
Proof.
  intros Hws. rewrite (assoc_L (++)), rstrip_app_spaces by done.
  change (lit "TERMINATE") with (lit "TERMINAT" ++ [69%N]).
  rewrite (assoc_L (++)). by apply rstrip_ends_nonspace.
Qed.

End PyFacts.

(** ** The notebook: properties *)

Module NotebookSpec.
Import Py Notebook PyFacts.

(** *** The termination test *)

Lemma is_termination_msg_str (x : dict) (s : pystr) :
  x !! lit "content" = Some (PyStr s) -> s <> [] ->
  is_termination_msg x = Ok (PyBool (endswith (rstrip s) (lit "TERMINATE"))).
Proof.
  intros Hx Hs. unfold is_termination_msg, py_and, dict_get. rewrite Hx. simpl.
  by rewrite bool_decide_eq_false_2.
Qed.

Lemma is_termination_msg_truthy (x : dict) (v : pyval) :
  is_termination_msg x = Ok v -> truthy v = true ->
  exists s, x !! lit "content" = Some (PyStr s) /\ s <> [] /\
            v = PyBool (endswith (rstrip s) (lit "TERMINATE")).
Proof.
  unfold is_termination_msg, py_and, dict_get.
  destruct (x !! lit "content") as [c|] eqn:Hx; simpl.
  - destruct (truthy c) eqn:Hc.
    + destruct c as [| | |s| |]; simpl; try discriminate.
      intros [= <-] _. exists s. split; [done|]. split; [|done].
      by apply truthy_str.
    + intros [= <-]. congruence.
  - intros [= <-]. discriminate.
Qed.

(** C9. For every message [x], [is_termination_msg x] is true exactly when
    the content of [x] is a non-empty string whose right-stripped text
    ends with TERMINATE; a message without content, or with empty content,
    gives the (false) empty string, and a non-empty content that does not
    end so gives the boolean [False], not the content. *)
Theorem is_termination_msg_spec (x : dict) :
  ((exists v, is_termination_msg x = Ok v /\ truthy v = true) <->
   (exists s, x !! lit "content" = Some (PyStr s) /\ s <> [] /\
              lit "TERMINATE" `suffix_of` rstrip s))
  /\ (x !! lit "content" = None \/ x !! lit "content" = Some (PyStr []) ->
      is_termination_msg x = Ok (PyStr []) /\ truthy (PyStr []) = false)
  /\ (forall s, x !! lit "content" = Some (PyStr s) -> s <> [] ->
      ~ lit "TERMINATE" `suffix_of` rstrip s ->
      is_termination_msg x = Ok (PyBool false)).
Proof.
  split; [|split].
  - split.
    + intros (v & Hv & Ht).
      destruct (is_termination_msg_truthy x v Hv Ht) as (s & Hx & Hs & ->).
      exists s. repeat split; [done..|]. by apply endswith_suffix.
    + intros (s & Hx & Hs & Hsuf). eexists. split.
      * by apply is_termination_msg_str.
      * by apply endswith_suffix.
  - intros H. split; [|done].
    unfold is_termination_msg, py_and, dict_get. by destruct H as [-> | ->].
  - intros s Hx Hs Hsuf. rewrite (is_termination_msg_str x s Hx Hs).
    destruct (endswith (rstrip s) (lit "TERMINATE")) eqn:He; [|done].
    by apply endswith_suffix in He.
Qed.

Lemma is_termination_msg_spec_witness :
  exists v,
    is_termination_msg {[ lit "content" := PyStr (lit "All done. TERMINATE  ") ]}
      = Ok v /\ truthy v = true.
Proof.
  apply (proj1 (is_termination_msg_spec _)).
  exists (lit "All done. TERMINATE  "). split; [apply lookup_singleton_eq|].
  split; [discriminate|]. by exists (lit "All done. ").
Defined.

(** *** The two example functions *)

Lemma exec_python_unfold {E : engine} (cell : pystr) (w : world E) :
  let r := (run_cell E (ipython w) cell).1 in
  exec_python cell w =
    (str (result r) ++ error_line (error_before_exec r)
       ++ error_line (error_in_exec r),
     {| ipython := (run_cell E (ipython w) cell).2; proxy := proxy w;
        calls := calls w ++ [RunCell cell] |}).
Proof.
  unfold exec_python. destruct (run_cell E (ipython w) cell) as [r sh]. simpl.
  destruct (error_before_exec r), (error_in_exec r); simpl;
    by rewrite <- ?(assoc_L (++)), ?app_nil_r.
Qed.

(** C2. For every cell, the log [exec_python] returns starts with
    [str(result.result)]; the string of [error_before_exec] follows on a
    new line when that slot is not [None], then the string of
    [error_in_exec] on a new line when that slot is not [None]; with both
    slots [None] the log is [str(result.result)] and nothing else. *)
Theorem exec_python_log (E : engine) (cell : pystr) (w : world E) :
  let r := (run_cell E (ipython w) cell).1 in
  let log := (exec_python cell w).1 in
  str (result r) `prefix_of` log
  /\ (error_before_exec r = None -> error_in_exec r = None ->
      log = str (result r))
  /\ (forall e, error_before_exec r = Some e -> error_in_exec r = None ->
      log = str (result r) ++ NL ++ py_str E e)
  /\ (forall e, error_before_exec r = None -> error_in_exec r = Some e ->
      log = str (result r) ++ NL ++ py_str E e)
  /\ (forall e e', error_before_exec r = Some e -> error_in_exec r = Some e' ->
      log = str (result r) ++ NL ++ py_str E e ++ NL ++ py_str E e').
Proof.
  intros r log. subst log. rewrite exec_python_unfold. fold r. simpl.
  split; [by eexists|].
  repeat split; intros; repeat match goal with H : _ = _ |- _ => rewrite H end;
    simpl; by rewrite <- ?(assoc_L (++)), ?app_nil_r.
Qed.

Lemma exec_python_log_witness :
  (exec_python (E := toy) (lit "plt.savefig('agents_chatting.png')") toy_world).1
  = lit "None".
Proof.
  apply (proj1 (proj2 (exec_python_log toy _ toy_world))); reflexivity.
Defined.


(** *** Registration *)

Lemma function_map_registrations :
  function_map registrations =
    <[lit "sh" := Exec_python]> (<[lit "python" := Exec_python]> ∅).
Proof. reflexivity. Qed.



Lemma sh_registered :
  function_map registrations !! lit "sh" = Some Exec_python.
Proof. rewrite function_map_registrations. by rewrite lookup_insert_eq. Qed.

(** C1. Two tools are registered, [python] and [sh], with the two
    descriptions of the notebook; the function called for [sh] is
    [exec_python], not [exec_sh]: asked to run the script [echo hi], the
    [sh] tool runs it as a cell of the interactive shell and the code
    executor is not called. *)
Theorem sh_tool_runs_exec_python :
  (fun t => (tool_name t, tool_description t)) <$> tools registrations =
    [(lit "python", lit "run cell in ipython and return the execution result.");
     (lit "sh", lit "run a shell script and return the execution result.")]
  /\ function_map registrations !! lit "sh" = Some Exec_python
  /\ function_map registrations !! lit "sh" <> Some Exec_sh
  /\ (forall (E : engine) (w : world E),
        execute_function registrations (lit "sh") (lit "echo hi") w
          = Some (exec_python (lit "echo hi") w)
        /\ calls (exec_python (lit "echo hi") w).2
           = calls w ++ [RunCell (lit "echo hi")]
        /\ calls (exec_sh (lit "echo hi") w).2
           = calls w ++ [ExecuteCodeBlocks [(lit "sh", lit "echo hi")]]).
Proof.
  split; [reflexivity|]. split; [apply sh_registered|].
  split; [by rewrite sh_registered|].
  intros E w. split; [|split].
  - unfold execute_function. by rewrite sh_registered.
  - by rewrite exec_python_unfold.
  - unfold exec_sh. by destruct (execute_code_blocks E _ _).
Qed.



(** *** Loading the configurations *)

Lemma accepts_model (c : dict) :
  forallb (accepts c) [(lit "model", allowed_models)] = true <->
  exists m, c !! lit "model" = Some (PyStr m) /\ m ∈ allowed_models.
Proof.
  simpl. rewrite andb_true_r. unfold accepts. simpl.
  destruct (c !! lit "model") as [[| | |m| |]|]; try (split; [done | by intros (? & ? & ?)]).
  rewrite bool_decide_eq_true. split; [by exists m|]. by intros (? & [= <-] & ?).
Qed.

Lemma filter_config_sublist (l : list dict) (fd : list (pystr * list pystr)) :
  filter_config l fd `sublist_of` l.
Proof.
  unfold filter_config. induction l as [|c l IH]; simpl; [done|].
  destruct (forallb (accepts c) fd); by constructor.
Qed.

(** C8. The configuration list comes from the JSON text found under the
    name OAI_CONFIG_LIST, in the environment first and in a file of that
    name otherwise, and holds exactly the entries of the parsed list whose
    model is gpt-4, gpt-3.5-turbo or gpt-3.5-turbo-16k, in their order;
    when there is such a text and it parses, the list is produced. *)
Theorem config_list_spec (json_loads : pystr -> option (list dict)) (h : host) :
  let source :=
    match environ h !! lit "OAI_CONFIG_LIST" with
    | Some text => Some text
    | None => files h !! lit "OAI_CONFIG_LIST"
    end in
  match config_list json_loads h with
  | Some kept =>
      exists text loaded,
        source = Some text /\ json_loads text = Some loaded
        /\ kept `sublist_of` loaded
        /\ forall c, c ∈ kept <->
             c ∈ loaded /\
             exists m, c !! lit "model" = Some (PyStr m) /\ m ∈ allowed_models
  | None => forall text, source = Some text -> json_loads text = None
  end.
Proof.
  intros source. unfold config_list, config_list_from_json. fold source.
  destruct source as [text|]; simpl; [|done].
  destruct (json_loads text) as [loaded|] eqn:Hl; simpl.
  - exists text, loaded. split_and!; [done..| |].
    + apply filter_config_sublist.
    + intros c. unfold filter_config.
      rewrite list_elem_of_In, filter_In, <- list_elem_of_In.
      fold allowed_models. by rewrite accepts_model.
  - by intros ? [= <-].
Qed.

(** Of four configurations in the environment, the two with an accepted
    model are kept. *)
Example config_list_toy :
  config_list toy_json_loads toy_host =
    Some [ {[ lit "model" := PyStr (lit "gpt-4") ]};
           {[ lit "model" := PyStr (lit "gpt-3.5-turbo-16k") ]} ].
Proof. reflexivity. Qed.

(** *** The exchange *)

Section Capped.
Context {E : engine}.
Variable assistant : list dict -> option dict.
Variable generate_reply : dict -> world E -> dict * world E.

Lemma receive_within_cap (a : Agent.t) (c : chat E) (message : dict) :
  within_cap a c ->
  within_cap a (receive generate_reply a c message).1.
Proof.
  intros [Hlen Hcap]. unfold receive. case_bool_decide as Hmax; [done|].
  destruct (Agent.is_termination_msg a message) as [v|e]; [|done].
  destruct (truthy v); [done|].
  destruct (generate_reply message (engines c)) as [reply w'].
  split; simpl; [rewrite length_app; simpl; lia | lia].
Qed.

Lemma receive_reply_counts (a : Agent.t) (c c' : chat E) (message reply : dict) :
  receive generate_reply a c message = (c', inr reply) ->
  consecutive_auto_reply_counter c' = S (consecutive_auto_reply_counter c).
Proof.
  unfold receive. case_bool_decide; [done|].
  destruct (Agent.is_termination_msg a message) as [v|e]; [|done].
  destruct (truthy v); [done|].
  destruct (generate_reply message (engines c)) as [r w']. by intros [= <- _].
Qed.

Lemma exchange_within_cap (a : Agent.t) (fuel : nat) :
  forall (c : chat E) (sent : list dict),
    within_cap a c ->
    match exchange assistant generate_reply fuel a c sent with
    | Some (c', _) => within_cap a c'
    | None => fuel + consecutive_auto_reply_counter c
                <= Agent.max_consecutive_auto_reply a
    end.
Proof.
  induction fuel as [|fuel IH]; intros c sent Hc; simpl.
  - apply Hc.
  - destruct (assistant sent) as [message|]; [|done].
    pose proof (receive_within_cap a c message Hc) as Hc'.
    destruct (receive generate_reply a c message) as [c' [why|reply]] eqn:Hr;
      [done|].
    apply receive_reply_counts in Hr. specialize (IH c' (sent ++ [reply]) Hc').
    destruct (exchange assistant generate_reply fuel a c' (sent ++ [reply]))
      as [[c'' why]|]; [done|]. lia.
Qed.

End Capped.

(** The cap is reached: against an assistant that never terminates,
    [user_proxy] answers ten times and then stops. *)
Example ten_auto_replies :
  (fun r => (length (auto_replies r.1), r.2)) <$>
    initiate_chat (E := toy) tireless echo 11 user_proxy
      {[ lit "content" := PyStr (lit "Draw two agents.") ]} toy_world
  = Some (10, MaxConsecutiveAutoReply).
Proof. vm_compute. reflexivity. Qed.

(** Ten rounds are not enough for that run. *)
Example ten_rounds_too_few :
  initiate_chat (E := toy) tireless echo 10 user_proxy
    {[ lit "content" := PyStr (lit "Draw two agents.") ]} toy_world
  = None.
Proof. vm_compute. reflexivity. Qed.

(** C3. [user_proxy] never asks for human input and its cap is ten: in
    every run of the chat, whatever the assistant sends and whatever the
    replies are, [user_proxy] has made at most ten automatic replies when
    the exchange ends, and the exchange ends within eleven rounds. *)
Theorem auto_replies_capped (E : engine)
    (assistant : list dict -> option dict)
    (generate_reply : dict -> world E -> dict * world E)
    (fuel : nat) (message : dict) (w : world E) :
  Agent.human_input_mode user_proxy = Agent.NEVER
  /\ Agent.max_consecutive_auto_reply user_proxy = 10
  /\ match initiate_chat assistant generate_reply fuel user_proxy message w with
     | Some (c, _) =>
         length (auto_replies c) = consecutive_auto_reply_counter c
         /\ consecutive_auto_reply_counter c <= 10
     | None => fuel <= 10
     end.
Proof.
  split; [done|]. split; [done|]. unfold initiate_chat.
  pose proof (exchange_within_cap assistant generate_reply user_proxy fuel
                {| consecutive_auto_reply_counter := 0; auto_replies := [];
                   engines := w |} [message]) as H.
  destruct (exchange _ _ _ _ _ _) as [[c why]|].
  - apply H. split; simpl; lia.
  - simpl in H. assert (fuel + 0 <= 10) by (apply H; split; simpl; lia). lia.
Qed.

(** *** More on the termination test *)

(** The test is true exactly for the contents made of any text, then
    TERMINATE, then white space only: the word has to come last, in
    capitals, and only white space may follow it. *)
Theorem termination_shape (x : dict) :
  (exists v, is_termination_msg x = Ok v /\ truthy v = true) <->
  (exists p ws,
     x !! lit "content" = Some (PyStr (p ++ lit "TERMINATE" ++ ws))
     /\ Forall (fun c => is_space c = true) ws).
Proof.
  split.
  - intros (v & Hv & Ht).
    destruct (is_termination_msg_truthy x v Hv Ht) as (s & Hx & Hs & ->).
    apply endswith_suffix in Ht. destruct Ht as [p Hp].
    destruct (rstrip_decompose s) as (ws & Hdec & Hws).
    exists p, ws. split; [|done]. rewrite Hx. do 2 f_equal.
    by rewrite (assoc_L (++)), <- Hp.
  - intros (p & ws & Hx & Hws). eexists. split.
    + apply (is_termination_msg_str x _ Hx). by destruct p.
    + apply endswith_suffix. rewrite rstrip_keyword by done. by exists p.
Qed.


(** A content in parts is a true value without [rstrip]; a full stop
    after the word, or small letters, do not end the chat. *)
Example termination_examples :
  is_termination_msg
    {[ lit "content" := PyList [PyDict [(lit "type", PyStr (lit "text"))]] ]}
    = Raise AttributeError
  /\ is_termination_msg {[ lit "content" := PyStr (lit "TERMINATE.") ]}
      = Ok (PyBool false)
  /\ is_termination_msg {[ lit "content" := PyStr (lit "terminate") ]}
      = Ok (PyBool false)
  /\ is_termination_msg {[ lit "content" := PyStr (lit "Done." ++ NL ++ lit "TERMINATE"
                                                   ++ NL ++ NL) ]}
      = Ok (PyBool true).
Proof. by vm_compute. Qed.

(** *** The two functions side by side *)






(** On the counting engine: two cells around a script. *)
Example interleaved_calls :
  call_all (E := counting)
    [(Exec_python, lit "a"); (Exec_sh, lit "ls"); (Exec_python, lit "b")]
    (Build_world counting 0 0 [])
  = ([(Exec_python, lit "a", lit "a"); (Exec_sh, lit "ls", lit "ls");
      (Exec_python, lit "b", lit "b")],
     Build_world counting 2 1
       [RunCell (lit "a"); ExecuteCodeBlocks [(lit "sh", lit "ls")];
        RunCell (lit "b")]).
Proof. reflexivity. Qed.

(** *** Reaching the cap *)

Section Tireless.
Context {E : engine}.
Variable assistant : list dict -> option dict.
Variable generate_reply : dict -> world E -> dict * world E.

Lemma exchange_reaches_cap (a : Agent.t) (fuel : nat) :
  (forall sent, exists m v,
      assistant sent = Some m /\ Agent.is_termination_msg a m = Ok v
      /\ truthy v = false) ->
  forall (c : chat E) (sent : list dict),
    within_cap a c ->
    Agent.max_consecutive_auto_reply a - consecutive_auto_reply_counter c < fuel ->
    exists c',
      exchange assistant generate_reply fuel a c sent
        = Some (c', MaxConsecutiveAutoReply)
      /\ within_cap a c'
      /\ consecutive_auto_reply_counter c' = Agent.max_consecutive_auto_reply a.
Proof.
  intros Hgo. induction fuel as [|fuel IH]; intros c sent Hc Hfuel; [lia|].
  simpl. destruct (Hgo sent) as (m & v & -> & Hv & Ht).
  pose proof (receive_within_cap generate_reply a c m Hc) as Hc'.
  destruct (receive generate_reply a c m) as [c' [why|reply]] eqn:Hr.
  - unfold receive in Hr. rewrite Hv, Ht in Hr. case_bool_decide as Hmax.
    + injection Hr as <- <-. exists c. split_and!; [done..|].
      destruct Hc as [_ ?]. lia.
    + by destruct (generate_reply m (engines c)).
  - pose proof (receive_reply_counts generate_reply a c c' m reply Hr).
    simpl in Hc'. apply IH; [done|]. destruct Hc' as [_ ?]. lia.
Qed.

End Tireless.

(** Against an assistant that always answers and whose messages never
    pass the termination test, [user_proxy] answers exactly ten times and
    the chat then stops for that reason, in any number of rounds above
    ten and whatever the replies are. *)
Theorem cap_reached_without_terminate (E : engine)
    (assistant : list dict -> option dict)
    (generate_reply : dict -> world E -> dict * world E)
    (fuel : nat) (message : dict) (w : world E) :
  (forall sent, exists m v,
      assistant sent = Some m /\ is_termination_msg m = Ok v
      /\ truthy v = false) ->
  10 < fuel ->
  exists c,
    initiate_chat assistant generate_reply fuel user_proxy message w
      = Some (c, MaxConsecutiveAutoReply)
    /\ consecutive_auto_reply_counter c = 10
    /\ length (auto_replies c) = 10.
Proof.
  intros Hgo Hfuel. unfold initiate_chat.
  destruct (exchange_reaches_cap assistant generate_reply user_proxy fuel Hgo
              {| consecutive_auto_reply_counter := 0; auto_replies := [];
                 engines := w |} [message]) as (c & Hx & [Hlen _] & Hc).
  - split; simpl; lia.
  - simpl. lia.
  - exists c. split_and!; [done..|]. by rewrite Hlen.
Qed.

Lemma cap_reached_without_terminate_witness :
  exists c,
    initiate_chat (E := toy) tireless echo 11 user_proxy
      {[ lit "content" := PyStr (lit "Draw two agents.") ]} toy_world
      = Some (c, MaxConsecutiveAutoReply)
    /\ consecutive_auto_reply_counter c = 10
    /\ length (auto_replies c) = 10.
Proof.
  apply cap_reached_without_terminate.
  - intros sent. eexists _, _. split; [reflexivity|]. split; reflexivity.
  - apply le_n.
Defined.

End NotebookSpec.

(** ** The docs workflow: properties *)

Module WorkflowSpec.
Import Workflow.
#[local] Open Scope string_scope.

(** The scripts of the model are the scripts of the file, line by line. *)
Example build_script_text :
  script_text build_script = [
    "if [ -e yarn.lock ]; then";
    "yarn install --frozen-lockfile --ignore-engines";
    "yarn build";
    "elif [ -e package-lock.json ]; then";
    "npm ci";
    "npm run build";
    "else";
    "npm i --legacy-peer-deps";
    "npm run build";
    "fi" ].
Proof. reflexivity. Qed.

(** *** Conditions *)

(** C4, as stated, fails: the test of the [if] in [Test Build] is a
    conditional of the workflow and does not test the triggering event. *)
Lemma some_conditional_tests_a_file :
  ~ (forall c, c ∈ conditionals docs -> tests_event_name c = true).
Proof.
  intros H.
  specialize (H (ShellIf "checks" (Some "Test Build") "[ -e yarn.lock ]")).
  assert (tests_event_name
            (ShellIf "checks" (Some "Test Build") "[ -e yarn.lock ]") = false)
    as Hf by reflexivity.
  rewrite H in Hf; [discriminate|].
  apply list_elem_of_In. vm_compute. tauto.
Qed.

(** C4, amended. The workflow has six conditionals. The [if:] of each of
    the two jobs tests the triggering event; the other four are the [if]
    and [elif] of the script of the last build step of each job ([Test
    Build], [Build website]), which test whether [yarn.lock] and
    [package-lock.json] exist. No other step has a branch. *)
Theorem conditionals_of_docs :
  conditionals docs = [
    JobIf "checks" (Ne (Context "github.event_name") (Literal "push"));
    ShellIf "checks" (Some "Test Build") "[ -e yarn.lock ]";
    ShellIf "checks" (Some "Test Build") "[ -e package-lock.json ]";
    JobIf "gh-release" (Ne (Context "github.event_name") (Literal "pull_request"));
    ShellIf "gh-release" (Some "Build website") "[ -e yarn.lock ]";
    ShellIf "gh-release" (Some "Build website") "[ -e package-lock.json ]" ]
  /\ tests_event_name <$> conditionals docs
     = [true; false; false; true; false; false]
  /\ Forall (fun j =>
       Forall (fun s =>
           step_conditionals j s = [] \/
           step_name s = Some "Test Build" \/ step_name s = Some "Build website")
         (steps j))
       (jobs docs).
Proof.
  split; [reflexivity|]. split; [reflexivity|].
  repeat constructor; vm_compute; tauto.
Qed.

(** *** Triggers *)


(** *** Failing commands *)

Section Halting.
Variable machine : Type.
Variable exec : string -> machine -> Z * machine.

Abbreviation nonzero := (fun rc : Z => rc <> 0%Z).

Lemma halts_cons {R : Type} (bad : R -> Prop) (r : R) (i : invocation)
    (log : list invocation) :
  ~ failed i -> halts_at_failure bad r log ->
  halts_at_failure bad r (i :: log).
Proof.
  intros Hi Hlog [|n] i' Hn Hf; simpl in *.
  - injection Hn as <-. done.
  - destruct (Hlog n i' Hn Hf) as [? ->]. done.
Qed.

Lemma halts_singleton {R : Type} (bad : R -> Prop) (r : R) (i : invocation) :
  (failed i -> bad r) -> halts_at_failure bad r [i].
Proof.
  intros Hi [|n] i' Hn Hf; simpl in *; [|done].
  injection Hn as <-. split; [by apply Hi | done].
Qed.

Lemma run_lines_halts (ls : list string) (m : machine) :
  let '(rc, _, log) := run_lines machine exec ls m in
  halts_at_failure nonzero rc log.
Proof.
  revert m. induction ls as [|l ls IH]; intros m; simpl.
  - by intros [|?] ?.
  - destruct (exec l m) as [rc m'] eqn:He.
    destruct (rc =? 0)%Z eqn:Hrc.
    + specialize (IH m'). destruct (run_lines machine exec ls m') as [[rc' m''] log].
      apply halts_cons; [|done]. intros [_ H]. simpl in H. lia.
    + apply halts_singleton. intros _. lia.
Qed.

Lemma run_elifs_halts (elifs : list (string * list string))
    (otherwise : list string) (m : machine) :
  let '(rc, _, log) := run_elifs machine exec elifs otherwise m in
  halts_at_failure nonzero rc log.
Proof.
  revert m. induction elifs as [|[test body] elifs IH]; intros m; simpl.
  - apply run_lines_halts.
  - destruct (exec test m) as [rc m'].
    destruct (rc =? 0)%Z.
    + pose proof (run_lines_halts body m') as H.
      destruct (run_lines machine exec body m') as [[rc' m''] log].
      apply halts_cons; [|done]. by intros [? _].
    + specialize (IH m').
      destruct (run_elifs machine exec elifs otherwise m') as [[rc' m''] log].
      apply halts_cons; [|done]. by intros [? _].
Qed.

Lemma run_cmd_halts (c : shell_cmd) (m : machine) :
  let '(rc, _, log) := run_cmd machine exec c m in
  halts_at_failure nonzero rc log.
Proof.
  destruct c as [line | test body elifs otherwise].
  - apply (run_lines_halts [line]).
  - apply (run_elifs_halts ((test, body) :: elifs)).
Qed.

Lemma run_script_halts (cs : list shell_cmd) (m : machine) :
  let '(rc, _, log) := run_script machine exec cs m in
  halts_at_failure nonzero rc log.
Proof.
  revert m. induction cs as [|c cs IH]; intros m; simpl.
  - by intros [|?] ?.
  - pose proof (run_cmd_halts c m) as Hc.
    destruct (run_cmd machine exec c m) as [[rc m'] log].
    destruct (rc =? 0)%Z eqn:Hrc; [|done].
    specialize (IH m').
    destruct (run_script machine exec cs m') as [[rc' m''] log'].
    intros n i Hn Hf. destruct (decide (n < length log)%nat) as [Hlt|Hge].
    + rewrite lookup_app_l in Hn by done.
      destruct (Hc n i Hn Hf) as [? _]. lia.
    + rewrite lookup_app_r in Hn by lia.
      destruct (IH _ i Hn Hf) as [? Hlen]. split; [done|].
      rewrite length_app. lia.
Qed.

Lemma run_step_halts (s : step) (m : machine) :
  let '(c, _, log) := run_step machine exec s m in
  halts_at_failure (fun c => c = Failure) c log.
Proof.
  unfold run_step. destruct (uses s) as [a|].
  - destruct (exec a m) as [rc m']. apply halts_singleton.
    intros [_ H]. simpl in H. by destruct (Z.eqb_spec rc 0).
  - pose proof (run_script_halts (run s) m) as H.
    destruct (run_script machine exec (run s) m) as [[rc m'] log].
    intros n i Hn Hf. destruct (H n i Hn Hf) as [? ?]. split; [|done].
    by destruct (Z.eqb_spec rc 0).
Qed.

Lemma run_steps_length (ok : bool) (ss : list step) (m : machine) :
  length (run_steps machine exec ok ss m).1 = length ss.
Proof.
  revert ok m. induction ss as [|s ss IH]; intros ok m; simpl; [done|].
  destruct ok.
  - destruct (run_step machine exec s m) as [[c m'] log].
    specialize (IH (match c with Success => true | _ => false end) m').
    destruct (run_steps machine exec _ ss m') as [rest m'']. simpl in *. lia.
  - specialize (IH false m).
    destruct (run_steps machine exec false ss m) as [rest m'']. simpl in *. lia.
Qed.

Lemma run_steps_skipped (ss : list step) (m : machine) :
  Forall (fun r => r = (Skipped, [])) (run_steps machine exec false ss m).1.
Proof.
  induction ss as [|s ss IH]; simpl; [done|].
  destruct (run_steps machine exec false ss m) as [rest m']. by constructor.
Qed.

(** In a job, a failed command is the last one its step runs, the step
    fails, and every later step is skipped. *)
Lemma run_steps_halts (ss : list step) (m : machine) :
  forall k c log n i,
    (run_steps machine exec true ss m).1 !! k = Some (c, log) ->
    log !! n = Some i -> failed i ->
    c = Failure /\ length log = S n /\
    forall k' r, (k < k')%nat ->
      (run_steps machine exec true ss m).1 !! k' = Some r -> r = (Skipped, []).
Proof.
  revert m. induction ss as [|s ss IH]; intros m k c log n i; simpl; [done|].
  pose proof (run_step_halts s m) as Hs.
  destruct (run_step machine exec s m) as [[c0 m'] log0].
  pose proof (run_steps_skipped ss m') as Hskip. specialize (IH m').
  rewrite Forall_lookup in Hskip.
  destruct c0; simpl in *;
    [ clear Hskip; destruct (run_steps machine exec true ss m') as [rest m'']
    | clear IH; destruct (run_steps machine exec false ss m') as [rest m'']..];
    simpl in *.
  - destruct k as [|k]; simpl.
    + intros [= <- <-] Hn Hf. by destruct (Hs n i Hn Hf).
    + intros Hk Hn Hf. destruct (IH k c log n i Hk Hn Hf) as (? & ? & Hlater).
      split_and!; [done..|]. intros [|k'] r ?; [lia|]. simpl. apply Hlater. lia.
  - destruct k as [|k]; simpl.
    + intros [= <- <-] Hn Hf. destruct (Hs n i Hn Hf) as [_ ?].
      split_and!; [done..|]. intros [|k'] r ?; [lia|]. simpl. apply Hskip.
    + intros Hk Hn _. apply Hskip in Hk. by simplify_eq.
  - destruct k as [|k]; simpl.
    + intros [= <- <-] Hn Hf. by destruct (Hs n i Hn Hf).
    + intros Hk Hn _. apply Hskip in Hk. by simplify_eq.
Qed.

End Halting.

(** C7. In both jobs of the workflow, on every runner: when a command a
    step runs (an action, or a line of a script that is not the test of a
    branch) exits non-zero, it is the last command of that step, the step
    fails, and every later step of the job is skipped. *)
Theorem failing_tool_halts_job (machine : Type)
    (exec : string -> machine -> Z * machine) (m : machine) (j : job) :
  j ∈ jobs docs ->
  let results := (run_job machine exec j m).1 in
  length results = length (steps j)
  /\ forall k c log n i,
       results !! k = Some (c, log) -> log !! n = Some i ->
       as_test i = false -> status i <> 0%Z ->
       c = Failure /\ length log = S n /\
       forall k' r, (k < k')%nat -> results !! k' = Some r -> r = (Skipped, []).
Proof.
  intros _ results. split; [apply run_steps_length|].
  intros k c log n i Hk Hn Ht Hs.
  by apply (run_steps_halts machine exec (steps j) m k c log n i Hk Hn).
Qed.

Lemma failing_tool_halts_job_witness :
  exists r, (run_job unit flaky checks tt).1 !! 5%nat = Some r
            /\ r = (Skipped, []).
Proof.
  eexists. split; [reflexivity|].
  assert (checks ∈ jobs docs) as Hin by (apply list_elem_of_here).
  pose proof (proj2 (failing_tool_halts_job unit flaky tt checks Hin)
                4%nat Failure
                [{| line_of := "pydoc-markdown"; status := 1; as_test := false |}]
                0%nat
                {| line_of := "pydoc-markdown"; status := 1; as_test := false |}
                eq_refl eq_refl eq_refl) as H.
  assert ((1 : Z) <> 0%Z) as Hne by discriminate.
  exact (proj2 (proj2 (H Hne)) 5%nat _ (le_n 5) eq_refl).
Defined.

(** The run behind the witness: four steps succeed, [pydoc-markdown run]
    fails, the three steps after it are skipped. *)
Example flaky_checks :
  fst <$> (run_job unit flaky checks tt).1
  = [Success; Success; Success; Success; Failure; Skipped; Skipped; Skipped].
Proof. reflexivity. Qed.

(** A missing [yarn.lock] does not fail the build step: the test selects
    the next branch. *)
Example test_status_selects_branch :
  run_script unit
    (fun line m => (if String.eqb line "[ -e yarn.lock ]" then 1%Z else 0%Z, m))
    build_script tt
  = (0%Z, tt,
     [ {| line_of := "[ -e yarn.lock ]"; status := 1; as_test := true |};
       {| line_of := "[ -e package-lock.json ]"; status := 0; as_test := true |};
       {| line_of := "npm ci"; status := 0; as_test := false |};
       {| line_of := "npm run build"; status := 0; as_test := false |} ]).
Proof. reflexivity. Qed.

(** *** Which event starts what *)

Lemma triggered_push : job_id <$> triggered docs "push" = ["gh-release"].
Proof. reflexivity. Qed.

Lemma triggered_pull_request :
  job_id <$> triggered docs "pull_request" = ["checks"].
Proof. reflexivity. Qed.




(** *** What a conclusion tells *)

Section Conclusions.
Variable machine : Type.
Variable exec : string -> machine -> Z * machine.

Abbreviation has_failed := (fun log : list invocation =>
  exists n i, log !! n = Some i /\ failed i).

Lemma has_failed_cons (i : invocation) (log : list invocation) :
  has_failed log -> has_failed (i :: log).
Proof. intros (n & i' & ? & ?). by exists (S n), i'. Qed.

Lemma run_lines_fails (ls : list string) (m : machine) :
  let '(rc, _, log) := run_lines machine exec ls m in
  rc <> 0%Z -> has_failed log.
Proof.
  revert m. induction ls as [|l ls IH]; intros m; simpl; [done|].
  destruct (exec l m) as [rc m']. destruct (Z.eqb_spec rc 0).
  - specialize (IH m'). destruct (run_lines machine exec ls m') as [[rc' m''] log].
    intros H. by apply has_failed_cons, IH.
  - intros _. by eexists 0%nat, _.
Qed.

Lemma run_elifs_fails (elifs : list (string * list string))
    (otherwise : list string) (m : machine) :
  let '(rc, _, log) := run_elifs machine exec elifs otherwise m in
  rc <> 0%Z -> has_failed log.
Proof.
  revert m. induction elifs as [|[test body] elifs IH]; intros m; simpl.
  - apply run_lines_fails.
  - destruct (exec test m) as [rc m']. destruct (rc =? 0)%Z.
    + pose proof (run_lines_fails body m') as H.
      destruct (run_lines machine exec body m') as [[rc' m''] log].
      intros ?. by apply has_failed_cons, H.
    + specialize (IH m').
      destruct (run_elifs machine exec elifs otherwise m') as [[rc' m''] log].
      intros ?. by apply has_failed_cons, IH.
Qed.

Lemma run_script_fails (cs : list shell_cmd) (m : machine) :
  let '(rc, _, log) := run_script machine exec cs m in
  rc <> 0%Z -> has_failed log.
Proof.
  revert m. induction cs as [|c cs IH]; intros m; simpl; [done|].
  assert (let '(rc, _, log) := run_cmd machine exec c m in
          rc <> 0%Z -> has_failed log) as Hc.
  { destruct c as [line | test body elifs otherwise].
    - apply (run_lines_fails [line]).
    - apply (run_elifs_fails ((test, body) :: elifs)). }
  destruct (run_cmd machine exec c m) as [[rc m'] log].
  destruct (Z.eqb_spec rc 0); [|done].
  specialize (IH m'). destruct (run_script machine exec cs m') as [[rc' m''] log'].
  intros H. destruct (IH H) as (n & i & Hn & Hf).
  exists (length log + n)%nat, i. split; [|done].
  by rewrite lookup_app_r, Nat.add_comm, Nat.add_sub by lia.
Qed.

Lemma run_step_conclusion (s : step) (m : machine) :
  let '(c, _, log) := run_step machine exec s m in
  c <> Skipped /\ (c = Failure -> has_failed log).
Proof.
  unfold run_step. destruct (uses s) as [a|].
  - destruct (exec a m) as [rc m']. destruct (Z.eqb_spec rc 0); split; try done.
    intros _. by eexists 0%nat, _.
  - pose proof (run_script_fails (run s) m) as H.
    destruct (run_script machine exec (run s) m) as [[rc m'] log].
    destruct (Z.eqb_spec rc 0); split; try done. intros _. by apply H.
Qed.

(** A failed step has a failed command; a skipped step ran nothing and
    comes after a failed step; a step that ran a command comes after
    successful steps only. *)
Lemma run_steps_conclusions (ss : list step) (m : machine) :
  forall k c log,
    (run_steps machine exec true ss m).1 !! k = Some (c, log) ->
    (c = Failure -> has_failed log)
    /\ (c = Skipped -> log = [] /\
         exists k' log', (k' < k)%nat /\
           (run_steps machine exec true ss m).1 !! k' = Some (Failure, log'))
    /\ (log <> [] -> forall k', (k' < k)%nat ->
         exists log', (run_steps machine exec true ss m).1 !! k'
                        = Some (Success, log')).
Proof.
  revert m. induction ss as [|s ss IH]; intros m k c log; simpl; [done|].
  pose proof (run_step_conclusion s m) as Hs.
  destruct (run_step machine exec s m) as [[c0 m'] log0].
  pose proof (run_steps_skipped machine exec ss m') as Hskip.
  rewrite Forall_lookup in Hskip. specialize (IH m').
  destruct Hs as [Hns Hfail].
  destruct c0; [| |done]; simpl in *;
    [ clear Hskip; destruct (run_steps machine exec true ss m') as [rest m'']
    | clear IH; destruct (run_steps machine exec false ss m') as [rest m'']];
    simpl in *; (destruct k as [|k]; simpl; [intros [= <- <-]|intros Hk]).
  - split_and!; [done..|]. intros _ k' ?. lia.
  - destruct (IH k c log Hk) as (H1 & H2 & H3). split_and!; [done| |].
    + intros Hc. destruct (H2 Hc) as (? & k' & log' & ? & ?).
      split; [done|]. exists (S k'), log'. split; [lia|done].
    + intros Hl [|k'] ?; simpl; [by eexists|]. apply H3; [done|lia].
  - split_and!; [done..|]. intros _ k' ?. lia.
  - apply Hskip in Hk. injection Hk as -> ->. split_and!; [done| |done].
    intros _. split; [done|]. exists 0%nat, log0. split; [lia|done].
Qed.

End Conclusions.

(** In both jobs, on every runner: a step fails only when one of its
    commands (not a test) exits non-zero, and a step is skipped only
    after a step that failed, and then runs nothing. *)
Theorem failure_has_a_cause (machine : Type)
    (exec : string -> machine -> Z * machine) (m : machine) :
  Forall (fun j =>
    forall k c log,
      (run_job machine exec j m).1 !! k = Some (c, log) ->
      (c = Failure ->
         exists n i, log !! n = Some i /\ as_test i = false /\ status i <> 0%Z)
      /\ (c = Skipped -> log = [] /\
           exists k' log', (k' < k)%nat /\
             (run_job machine exec j m).1 !! k' = Some (Failure, log')))
    (jobs docs).
Proof.
  apply Forall_forall. intros j _ k c log Hk.
  destruct (run_steps_conclusions machine exec (steps j) m k c log Hk)
    as (H1 & H2 & _).
  split; [|done]. intros Hc. destruct (H1 Hc) as (n & i & ? & ? & ?).
  by exists n, i.
Qed.

(** In both jobs, on every runner: a step runs a command only when all
    the steps before it succeeded. In [gh-release] the deploy action is
    the ninth step: when it is run, the eight steps before it, the build
    of the website among them, have succeeded. *)
Theorem runs_only_after_success (machine : Type)
    (exec : string -> machine -> Z * machine) (m : machine) :
  Forall (fun j =>
    forall k c log,
      (run_job machine exec j m).1 !! k = Some (c, log) -> log <> [] ->
      forall k', (k' < k)%nat ->
        exists log', (run_job machine exec j m).1 !! k' = Some (Success, log'))
    (jobs docs)
  /\ (steps gh_release !! 8%nat
      = Some (action (Some "Deploy to GitHub Pages")
                "peaceiris/actions-gh-pages@v3"
                [("github_token", "${{ secrets.GITHUB_TOKEN }}");
                 ("publish_dir", "./website/build")])
      /\ step_name <$> steps gh_release !! 7%nat = Some (Some "Build website")).
Proof.
  split; [|done]. apply Forall_forall. intros j _ k c log Hk Hl.
  destruct (run_steps_conclusions machine exec (steps j) m k c log Hk)
    as (_ & _ & H). by apply H.
Qed.

(** *** The build script *)


(** *** The check rehearses the release *)

Section Rehearsal.
Variable machine : Type.
Variable exec : string -> machine -> Z * machine.

Abbreviation succeeded := (fun r : conclusion * list invocation =>
  match r.1 with Success => true | _ => false end).

Lemma run_steps_app (ok : bool) (ss ss' : list step) (m : machine) :
  run_steps machine exec ok (ss ++ ss') m =
    let '(res, m') := run_steps machine exec ok ss m in
    let '(res', m'') :=
      run_steps machine exec (ok && forallb succeeded res) ss' m' in
    ((res ++ res')%list, m'').
Proof.
  revert ok m. induction ss as [|s ss IH]; intros ok m; simpl.
  - rewrite andb_true_r. by destruct (run_steps machine exec ok ss' m).
  - destruct ok; simpl.
    + destruct (run_step machine exec s m) as [[c m1] log]. rewrite IH.
      destruct (run_steps machine exec _ ss m1) as [res m2]. simpl.
      by destruct (run_steps machine exec _ ss' m2).
    + rewrite IH. destruct (run_steps machine exec false ss m) as [res m2].
      simpl. by destruct (run_steps machine exec false ss' m2).
Qed.

Lemma run_steps_take (ok : bool) (ss ss' : list step) (m : machine) :
  (run_steps machine exec ok ss m).1
  = take (length ss) (run_steps machine exec ok (ss ++ ss') m).1.
Proof.
  rewrite run_steps_app. pose proof (run_steps_length machine exec ok ss m) as Hl.
  destruct (run_steps machine exec ok ss m) as [res m']. simpl in *.
  destruct (run_steps machine exec _ ss' m') as [res' m'']. simpl.
  by rewrite take_app_length'.
Qed.

(** The name of a step, what it is given and where it runs do not enter
    its run. *)
Lemma run_steps_same (ss1 ss2 : list step) :
  Forall2 (fun s1 s2 => uses s1 = uses s2 /\ run s1 = run s2) ss1 ss2 ->
  forall ok m, run_steps machine exec ok ss1 m = run_steps machine exec ok ss2 m.
Proof.
  induction 1 as [|s1 s2 ss1 ss2 [Hu Hr] _ IH]; intros ok m; simpl; [done|].
  unfold run_step. rewrite Hu, Hr. destruct ok; [|by rewrite IH].
  destruct (uses s2) as [a|].
  - destruct (exec a m) as [rc m']. by rewrite IH.
  - destruct (run_script machine exec (run s2) m) as [[rc m'] log]. by rewrite IH.
Qed.

End Rehearsal.

(** On the same runner in the same state, the eight steps of [checks]
    conclude as the first eight steps of [gh-release] do, and run the
    same commands with the same exit statuses: what a pull request checks
    is the build a release makes, short of the deploy step. *)
Theorem checks_rehearses_release (machine : Type)
    (exec : string -> machine -> Z * machine) (m : machine) :
  (run_job machine exec checks m).1
  = take 8 (run_job machine exec gh_release m).1.
Proof.
  unfold run_job.
  rewrite (run_steps_same machine exec (steps checks)
             (setup_steps ++ [script "Build website" None build_script])).
  - apply (run_steps_take machine exec true
             (setup_steps ++ [script "Build website" None build_script])
             [action (Some "Deploy to GitHub Pages")
                "peaceiris/actions-gh-pages@v3"
                [("github_token", "${{ secrets.GITHUB_TOKEN }}");
                 ("publish_dir", "./website/build")]]).
  - repeat constructor.
Qed.

End WorkflowSpec.
